(** * Shopping list component: the store, its HTTP views and its intents

    A shallow embedding of [homeassistant/components/shopping_list.py]
    and the properties of its list store.  Python dictionaries are finite
    maps with string keys, Python values decoded from JSON are a small
    inductive type, and methods that mutate [self] or raise are
    computations in a state-and-exception monad. *)

From Stdlib Require Import ZArith String Ascii List Lia.
From Stdlib Require Import Floats.SpecFloat.
From stdpp Require Import base option list gmap strings pretty fin_maps.

Set Warnings "-register-all".

Local Open Scope string_scope.
Local Open Scope list_scope.

(** ** Python values *)

(** The values the component handles: what [json.loads] produces for a
    request body, and what the store keeps in its item dictionaries. *)
Inductive value : Type :=
  | VNone
  | VBool (b : bool)
  | VInt (n : Z)
  | VFloat (x : spec_float)
  | VStr (s : string)
  | VList (l : list value)
  | VDict (d : gmap string value).

Abbreviation dict := (gmap string value).

(** Exceptions raised in the component. [Invalid] is [vol.Invalid]. *)
Inductive exn : Type :=
  | KeyError
  | TypeError
  | Invalid.

(** Truth value of an object, as tested by [not x] and [if x]. *)
Definition truthy (v : value) : bool :=
  match v with
  | VNone => false
  | VBool b => b
  | VInt n => negb (n =? 0)%Z
  | VFloat (S754_zero _) => false
  | VFloat _ => true
  | VStr s => negb (String.eqb s "")
  | VList l => match l with [] => false | _ => true end
  | VDict d => negb (bool_decide (d = ∅))
  end.

(** [v == s] for a string [s]: only an equal string compares equal. *)
Definition eq_str (v : value) (s : string) : bool :=
  match v with
  | VStr s' => String.eqb s' s
  | _ => false
  end.

(** [d[k]]: subscription raises [KeyError] on a missing key. *)
Definition getitem (d : dict) (k : string) : exn + value :=
  match d !! k with
  | Some v => inr v
  | None => inl KeyError
  end.

(** ** Computations that mutate a state and may raise *)

Module Py.

Definition M (S A : Type) : Type := S -> (exn + A) * S.

Definition ret {S A} (a : A) : M S A := fun s => (inr a, s).

Definition bind {S A B} (m : M S A) (k : A -> M S B) : M S B :=
  fun s =>
    match m s with
    | (inr a, s') => k a s'
    | (inl e, s') => (inl e, s')
    end.

Definition raise {S A} (e : exn) : M S A := fun s => (inl e, s).

Definition get_state {S} : M S S := fun s => (inr s, s).

Definition put_state {S} (s : S) : M S unit := fun _ => (inr tt, s).

(** A pure step that may raise: the state is left alone. *)
Definition lift {S A} (r : exn + A) : M S A := fun s => (r, s).

(** [try: m except e: h e]. What [m] did to the state before it raised
    stays done. *)
Definition try_except {S A} (m : M S A) (h : exn -> M S A) : M S A :=
  fun s =>
    match m s with
    | (inl e, s') => h e s'
    | r => r
    end.

(** Run a computation on a component [T] of the state [S]. *)
Definition zoom {S T A} (proj : S -> T) (upd : T -> S -> S)
    (m : M T A) : M S A :=
  fun s => let '(r, t) := m (proj s) in (r, upd t s).

End Py.

Declare Scope py_scope.
Delimit Scope py_scope with py.
Notation "x <- m ;; k" := (Py.bind m (fun x => k))
  (at level 100, m at next level, right associativity) : py_scope.
Notation "m ;;; k" := (Py.bind m (fun _ => k))
  (at level 100, right associativity) : py_scope.

(** ** [uuid.uuid4().hex] *)

(** [uuid4()] builds a UUID from sixteen bytes of [os.urandom], read as a
    big-endian 128-bit integer, and then fixes the variant (RFC 4122) and
    the version (4). The random bytes are an input of the model. *)
Definition uuid4 (urandom : Z) : Z :=
  let int := (urandom mod 2 ^ 128)%Z in
  let int := Z.land int (Z.lnot (Z.shiftl 0xc000 48)) in
  let int := Z.lor int (Z.shiftl 0x8000 48) in
  let int := Z.land int (Z.lnot (Z.shiftl 0xf000 64)) in
  Z.lor int (Z.shiftl 4 76).

Definition hexdigit (n : Z) : ascii :=
  match n with
  | 0 => "0" | 1 => "1" | 2 => "2" | 3 => "3" | 4 => "4" | 5 => "5"
  | 6 => "6" | 7 => "7" | 8 => "8" | 9 => "9" | 10 => "a" | 11 => "b"
  | 12 => "c" | 13 => "d" | 14 => "e" | _ => "f"
  end%Z%char.

(** The digits of the low [4 * n] bits of [u], most significant first. *)
Fixpoint hexdigits (n : nat) (u : Z) : string :=
  match n with
  | O => EmptyString
  | S n' =>
      String (hexdigit (Z.land (Z.shiftr u (4 * Z.of_nat n')%Z) 15))
             (hexdigits n' u)
  end.

(** [UUID.hex] is ['%032x' % self.int]; a UUID's integer is below
    [2 ^ 128], so these are exactly thirty-two digits. *)
Definition hex (u : Z) : string := hexdigits 32 u.

(** ** Pure steps that may raise *)

Module Exc.

Definition and_then {A B} (r : exn + A) (k : A -> exn + B) : exn + B :=
  match r with
  | inr a => k a
  | inl e => inl e
  end.

(** Apply [f] to the elements from left to right; the first exception
    ends the iteration. *)
Fixpoint traverse {A B} (f : A -> exn + B) (l : list A) : exn + list B :=
  match l with
  | [] => inr []
  | a :: l' =>
      and_then (f a) (fun b =>
        and_then (traverse f l') (fun bs => inr (b :: bs)))
  end.

End Exc.

(** [sep.join(vs)]: every element has to be a string. *)
Definition str_join (sep : string) (vs : list value) : exn + string :=
  Exc.and_then
    (Exc.traverse
       (fun v => match v with VStr s => inr s | _ => inl TypeError end) vs)
    (fun strs => inr (String.concat sep strs)).

(** [l[-n:]]: the last [n] elements, all of [l] when it is shorter. *)
Definition last_slice {A} (n : nat) (l : list A) : list A :=
  drop (length l - n) l.

(** ** Constants of the component *)

Definition EVENT : string := "shopping_list_updated".

(** Modelled from the spec: [HTTP_NOT_FOUND] of [homeassistant.const],
    which is not part of the sources; the not-found status is 404. *)
Definition HTTP_NOT_FOUND : Z := 404.

(** Modelled from the spec: [HTTP_BAD_REQUEST] of [homeassistant.const],
    which is not part of the sources; the validation status is 400. *)
Definition HTTP_BAD_REQUEST : Z := 400.

(** One entry of a patch against
    [vol.Schema({'complete': bool, 'name': str})]: the key is one of the
    two of the schema and the value is an instance of its type. *)
Definition schema_entry (k : string) (v : value) : bool :=
  if String.eqb k "complete" then
    match v with VBool _ => true | _ => false end
  else if String.eqb k "name" then
    match v with VStr _ => true | _ => false end
  else false.

(** [ITEM_UPDATE_SCHEMA(data)]: [data] has to be a dictionary, no key is
    required, a key outside the schema is refused (voluptuous' default),
    and the validated dictionary holds the entries of [data]. *)
Definition ITEM_UPDATE_SCHEMA (data : value) : exn + dict :=
  match data with
  | VDict d =>
      if bool_decide (map_Forall (fun k v => schema_entry k v = true) d)
      then inr d
      else inl Invalid
  | _ => inl Invalid
  end.

(** ** The store *)

Module ShoppingData.

(** [self.items]: a list of dictionaries. *)
Record t : Type := { items : list dict }.

(** [ShoppingData(items)]. *)
Definition __init__ (items : list dict) : t := {| items := items |}.

(** [add] has no [return]: the call evaluates to [None]. *)
Definition add (name : string) (urandom : Z) : Py.M t value :=
  (self <- Py.get_state ;;
   Py.put_state {| items := items self ++
               [ {[ "name" := VStr name;
                    "id" := VStr (hex (uuid4 urandom));
                    "complete" := VBool false ]} ] |} ;;;
   Py.ret VNone)%py.

(** [next((itm for itm in items if itm['id'] == item_id), None)]: the
    first item with that id, with its position in [self.items] standing
    for the reference to the dictionary. *)
Fixpoint next_with_id (items : list dict) (item_id : string) (pos : nat)
    : exn + option (nat * dict) :=
  match items with
  | [] => inr None
  | itm :: items' =>
      Exc.and_then (getitem itm "id") (fun v =>
        if eq_str v item_id then inr (Some (pos, itm))
        else next_with_id items' item_id (S pos))
  end.

(** [item.update(info)] writes the entries of [info] over those of the
    item, in place: the dictionary at [pos] of the list is the one
    changed. *)
Definition update (item_id : string) (info : value) : Py.M t value :=
  (self <- Py.get_state ;;
   item <- Py.lift (next_with_id (items self) item_id 0) ;;
   match item with
   | None => Py.raise KeyError
   | Some (pos, item) =>
       info <- Py.lift (ITEM_UPDATE_SCHEMA info) ;;
       Py.put_state {| items := <[pos := info ∪ item]> (items self) |} ;;;
       Py.ret (VDict (info ∪ item))
   end)%py.

(** [[itm for itm in items if not itm['complete']]]. *)
Fixpoint not_complete (items : list dict) : exn + list dict :=
  match items with
  | [] => inr []
  | itm :: items' =>
      Exc.and_then (getitem itm "complete") (fun v =>
        Exc.and_then (not_complete items') (fun rest =>
          inr (if negb (truthy v) then itm :: rest else rest)))
  end.

Definition clear_completed : Py.M t value :=
  (self <- Py.get_state ;;
   kept <- Py.lift (not_complete (items self)) ;;
   Py.put_state {| items := kept |} ;;;
   Py.ret VNone)%py.

End ShoppingData.

(** ** The application around the store *)

(** [hass.data[DOMAIN]] and the events fired on [hass.bus]. *)
Record Hass : Type := {
  data : ShoppingData.t;
  bus : list string
}.

(** [async_setup] puts an empty store in [hass.data]. *)
Definition async_setup : Hass :=
  {| data := ShoppingData.__init__ []; bus := [] |}.

Definition on_data {A} (m : Py.M ShoppingData.t A) : Py.M Hass A :=
  Py.zoom data (fun d hass => {| data := d; bus := bus hass |}) m.

(** [hass.bus.async_fire(event)]. *)
Definition async_fire (event : string) : Py.M Hass unit :=
  (hass <- Py.get_state ;;
   Py.put_state {| data := data hass; bus := bus hass ++ [event] |})%py.

(** The response of an intent handler, with the speech set on it. *)
Record IntentResponse : Type := { speech : string }.

Module AddItemIntent.

(** [item] is the value of the slot [item] after the validation of the
    slots, a string. *)
Definition async_handle (item : string) (urandom : Z)
    : Py.M Hass IntentResponse :=
  (on_data (ShoppingData.add item urandom) ;;;
   async_fire EVENT ;;;
   Py.ret {| speech :=
     "I've added " ++ item ++ " to your shopping list" |})%py.

End AddItemIntent.

Module ListTopItemsIntent.

Definition async_handle : Py.M Hass IntentResponse :=
  (hass <- Py.get_state ;;
   let items := last_slice 5 (ShoppingData.items (data hass)) in
   match items with
   | [] =>
       Py.ret {| speech := "There are no items on your shopping list" |}
   | _ =>
       names <- Py.lift (Exc.traverse (fun itm => getitem itm "name")
                           (rev items)) ;;
       joined <- Py.lift (str_join ", " names) ;;
       Py.ret {| speech :=
         "These are the top " ++ pretty (length items `min` 5)%nat ++
         " items on your shopping list: " ++ joined |}
   end)%py.

End ListTopItemsIntent.

(** An HTTP response: status and JSON body. *)
Record Response : Type := { status : Z; body : value }.

(** Modelled from the spec: [HomeAssistantView.json], which is not part of
    the sources; the result is sent as the JSON body with status 200. *)
Definition json (result : value) : Response :=
  {| status := 200; body := result |}.

(** Modelled from the spec: [HomeAssistantView.json_message], which is not
    part of the sources; a JSON error message with the given status. *)
Definition json_message (message : string) (status_code : Z) : Response :=
  {| status := status_code;
     body := VDict {[ "message" := VStr message ]} |}.

Module ShoppingListView.

Definition get : Py.M Hass Response :=
  (hass <- Py.get_state ;;
   Py.ret (json (VList (VDict <$> ShoppingData.items (data hass)))))%py.

End ShoppingListView.

Module UpdateShoppingListItemView.

(** [data] is the decoded JSON body of the request. *)
Definition post (data : value) (item_id : string) : Py.M Hass Response :=
  Py.try_except
    (item <- on_data (ShoppingData.update item_id data) ;;
     async_fire EVENT ;;;
     Py.ret (json item))%py
    (fun e =>
       match e with
       | KeyError => Py.ret (json_message "Item not found" HTTP_NOT_FOUND)
       | Invalid => Py.ret (json_message "Item not found" HTTP_BAD_REQUEST)
       | _ => Py.raise e
       end).

End UpdateShoppingListItemView.

(** ** The items of the data model *)

(** An item as the store builds it in [add]: a dictionary with exactly the
    keys [name], [id] and [complete], holding a string, a string and a
    boolean. *)
Module Item.

Record t : Type := { name : string; id : string; complete : bool }.

Definition to_dict (it : t) : dict :=
  {[ "name" := VStr (name it);
     "id" := VStr (id it);
     "complete" := VBool (complete it) ]}.

(** The item [add(name)] creates when [uuid4] draws [urandom]. *)
Definition created (name : string) (urandom : Z) : t :=
  {| name := name; id := hex (uuid4 urandom); complete := false |}.

(** The typed reading of [item.update(info)] for a validated [info]. *)
Definition patched (info : dict) (it : t) : t :=
  {| name := match info !! "name" with
             | Some (VStr s) => s
             | _ => name it
             end;
     id := id it;
     complete := match info !! "complete" with
                 | Some (VBool b) => b
                 | _ => complete it
                 end |}.

End Item.

(** The store whose items are the dictionaries of [l], in that order. *)
Definition store_of (l : list Item.t) : ShoppingData.t :=
  ShoppingData.__init__ (Item.to_dict <$> l).

(** ** Histories of the store *)

(** One call on the store. *)
Inductive op : Type :=
  | Add (name : string) (urandom : Z)
  | Update (item_id : string) (info : value)
  | ClearCompleted.

Definition run_op (o : op) : Py.M ShoppingData.t value :=
  match o with
  | Add name urandom => ShoppingData.add name urandom
  | Update item_id info => ShoppingData.update item_id info
  | ClearCompleted => ShoppingData.clear_completed
  end.

(** The store after the calls [ops], made in that order; a call that
    raises is over and the next one runs on the store it left. *)
Definition exec (ops : list op) (s : ShoppingData.t) : ShoppingData.t :=
  fold_left (fun s o => snd (run_op o s)) ops s.

(** The UUIDs that [uuid4] hands out during [ops], in call order. *)
Definition drawn (ops : list op) : list Z :=
  omap (fun o => match o with
                 | Add _ urandom => Some (uuid4 urandom)
                 | _ => None
                 end) ops.

(** What a patch must not contain: a key outside the schema, or a value
    of the wrong type under one of its keys. *)
Definition malformed_entry (k : string) (v : value) : Prop :=
  (k ≠ "complete" ∧ k ≠ "name")
  ∨ (k = "complete" ∧ ∀ b, v ≠ VBool b)
  ∨ (k = "name" ∧ ∀ s, v ≠ VStr s).

(** The list after a validated patch [info] is written over the first
    item with the id [item_id], if there is one. *)
Fixpoint patch_first (item_id : string) (info : dict) (l : list Item.t)
    : list Item.t :=
  match l with
  | [] => []
  | it :: l' =>
      if String.eqb (Item.id it) item_id then Item.patched info it :: l'
      else it :: patch_first item_id info l'
  end.

(** Running a computation: unfold the steps of the monad. *)
Ltac py_run :=
  unfold Py.try_except, Py.zoom, Py.bind, Py.get_state, Py.put_state,
    Py.lift, Py.raise, Py.ret;
  simpl.

(** ** Identifiers

    [hex] writes different UUIDs differently, so the ids of the store are
    as distinct as the UUIDs drawn. *)

Lemma hexdigits_length n u : String.length (hexdigits n u) = n.
Proof. induction n as [|n IH]; simpl; [done|]. by rewrite IH. Qed.

Lemma hexdigit_inj a b :
  (0 <= a < 16)%Z → (0 <= b < 16)%Z → hexdigit a = hexdigit b → a = b.
Proof.
  intros Ha Hb.
  assert (a = 0 ∨ a = 1 ∨ a = 2 ∨ a = 3 ∨ a = 4 ∨ a = 5 ∨ a = 6 ∨ a = 7
          ∨ a = 8 ∨ a = 9 ∨ a = 10 ∨ a = 11 ∨ a = 12 ∨ a = 13 ∨ a = 14
          ∨ a = 15)%Z as Ha' by lia.
  assert (b = 0 ∨ b = 1 ∨ b = 2 ∨ b = 3 ∨ b = 4 ∨ b = 5 ∨ b = 6 ∨ b = 7
          ∨ b = 8 ∨ b = 9 ∨ b = 10 ∨ b = 11 ∨ b = 12 ∨ b = 13 ∨ b = 14
          ∨ b = 15)%Z as Hb' by lia.
  clear Ha Hb.
  repeat (destruct Ha' as [->|Ha']); try subst a;
    repeat (destruct Hb' as [->|Hb']); try subst b;
    first [reflexivity | discriminate].
Qed.

Lemma nibble_range u k : (0 <= Z.land (Z.shiftr u k) 15 < 16)%Z.
Proof.
  change 15%Z with (Z.ones 4). rewrite Z.land_ones by lia.
  apply Z.mod_pos_bound. lia.
Qed.

Lemma hexdigits_nibbles n u u' :
  hexdigits n u = hexdigits n u' →
  ∀ q : nat, (q < n)%nat →
    Z.land (Z.shiftr u (4 * Z.of_nat q)) 15
    = Z.land (Z.shiftr u' (4 * Z.of_nat q)) 15.
Proof.
  induction n as [|n IH]; intros Heq q Hq; [lia|].
  simpl in Heq. injection Heq as Hd Hrest.
  destruct (decide (q = n)) as [->|Hne].
  - apply hexdigit_inj; [apply nibble_range..|done].
  - apply IH; [done|lia].
Qed.

Lemma hexdigits_bits n u u' :
  hexdigits n u = hexdigits n u' →
  ∀ i : Z, (0 <= i < 4 * Z.of_nat n)%Z → Z.testbit u i = Z.testbit u' i.
Proof.
  intros Heq i Hi.
  pose proof (hexdigits_nibbles n u u' Heq (Z.to_nat (i / 4))) as Hn.
  assert (Z.to_nat (i / 4) < n)%nat as Hlt.
  { apply Nat2Z.inj_lt. rewrite Z2Nat.id by (apply Z.div_pos; lia).
    apply Z.div_lt_upper_bound; lia. }
  specialize (Hn Hlt). rewrite Z2Nat.id in Hn by (apply Z.div_pos; lia).
  apply (f_equal (fun x => Z.testbit x (i mod 4))) in Hn.
  assert (0 <= i mod 4 < 4)%Z as Hm by (apply Z.mod_pos_bound; lia).
  rewrite !Z.land_spec, !Z.shiftr_spec in Hn by lia.
  replace (i mod 4 + 4 * (i / 4))%Z with i in Hn
    by (pose proof (Z.div_mod i 4); lia).
  assert (Z.testbit 15 (i mod 4) = true) as H15.
  { assert (i mod 4 = 0 ∨ i mod 4 = 1 ∨ i mod 4 = 2 ∨ i mod 4 = 3)%Z
      as [-> | [-> | [-> | ->]]] by lia; reflexivity. }
  rewrite H15, !andb_true_r in Hn. exact Hn.
Qed.

Lemma hex_inj u u' :
  (0 <= u < 2 ^ 128)%Z → (0 <= u' < 2 ^ 128)%Z → hex u = hex u' → u = u'.
Proof.
  intros Hu Hu' Heq.
  rewrite <- (Z.mod_small u (2 ^ 128)), <- (Z.mod_small u' (2 ^ 128)) by done.
  apply Z.bits_inj'. intros i Hi.
  destruct (decide (i < 128)%Z) as [Hlt|Hge].
  - rewrite !Z.mod_pow2_bits_low by lia.
    apply (hexdigits_bits 32); [done|lia].
  - rewrite !Z.mod_pow2_bits_high by lia. done.
Qed.

Lemma const_bits_high c k i :
  (0 <= c)%Z → (0 <= k)%Z → (Z.log2 c + k < i)%Z →
  Z.testbit (Z.shiftl c k) i = false.
Proof.
  intros Hc Hk Hi. pose proof (Z.log2_nonneg c).
  rewrite Z.shiftl_spec by lia.
  apply Z.bits_above_log2; lia.
Qed.

Lemma uuid4_range urandom : (0 <= uuid4 urandom < 2 ^ 128)%Z.
Proof.
  assert (uuid4 urandom = uuid4 urandom mod 2 ^ 128)%Z as ->.
  { apply Z.bits_inj'. intros i Hi.
    destruct (decide (i < 128)%Z) as [Hlt|Hge].
    - by rewrite Z.mod_pow2_bits_low.
    - rewrite Z.mod_pow2_bits_high by lia. unfold uuid4.
      rewrite !Z.lor_spec, !Z.land_spec, !Z.lor_spec, !Z.land_spec.
      rewrite Z.mod_pow2_bits_high by lia.
      rewrite !const_bits_high; [done|simpl; lia..]. }
  apply Z.mod_pos_bound. lia.
Qed.

Lemma drawn_range ops u : u ∈ drawn ops → (0 <= u < 2 ^ 128)%Z.
Proof.
  unfold drawn. rewrite list_elem_of_omap. intros (o & _ & Ho).
  destruct o; try discriminate. injection Ho as <-. apply uuid4_range.
Qed.

Lemma NoDup_hex_drawn ops : NoDup (drawn ops) → NoDup (hex <$> drawn ops).
Proof.
  apply NoDup_fmap_2_strong. intros u u' Hu Hu'.
  apply hex_inj; by eapply drawn_range.
Qed.

(** ** Dictionaries of items *)

Lemma to_dict_name it :
  Item.to_dict it !! "name" = Some (VStr (Item.name it)).
Proof. reflexivity. Qed.

Lemma to_dict_id it : Item.to_dict it !! "id" = Some (VStr (Item.id it)).
Proof. reflexivity. Qed.

Lemma to_dict_complete it :
  Item.to_dict it !! "complete" = Some (VBool (Item.complete it)).
Proof. reflexivity. Qed.

Lemma to_dict_other it k :
  k ≠ "name" → k ≠ "id" → k ≠ "complete" → Item.to_dict it !! k = None.
Proof.
  intros Hn Hi Hc. unfold Item.to_dict.
  rewrite !lookup_insert_ne by done. by rewrite lookup_singleton_ne.
Qed.

Lemma to_dict_inj : Inj (=) (=) Item.to_dict.
Proof.
  intros [n1 i1 c1] [n2 i2 c2] H.
  pose proof (f_equal (.!! "name") H) as Hn.
  pose proof (f_equal (.!! "id") H) as Hi.
  pose proof (f_equal (.!! "complete") H) as Hc.
  rewrite !to_dict_name in Hn. rewrite !to_dict_id in Hi.
  rewrite !to_dict_complete in Hc. simpl in *. congruence.
Qed.

(** ** The update schema *)

Lemma schema_entry_true k v :
  schema_entry k v = true ↔
  (k = "complete" ∧ ∃ b, v = VBool b) ∨ (k = "name" ∧ ∃ s, v = VStr s).
Proof.
  unfold schema_entry.
  destruct (String.eqb_spec k "complete") as [->|Hc].
  - destruct v; split; try discriminate; eauto;
      intros [[_ [? ?]]|[? _]]; done.
  - destruct (String.eqb_spec k "name") as [->|Hn].
    + destruct v; split; try discriminate; eauto;
        intros [[? _]|[_ [? ?]]]; done.
    + split; [discriminate|]. intros [[? _]|[? _]]; done.
Qed.

Lemma schema_entry_false k v :
  schema_entry k v = false ↔ malformed_entry k v.
Proof.
  unfold schema_entry, malformed_entry.
  destruct (String.eqb_spec k "complete") as [->|Hc].
  - destruct v; split; try discriminate; try (intros _; right; left; done);
      intros [[? _]|[[_ H]|[? _]]]; try done. by destruct (H b).
  - destruct (String.eqb_spec k "name") as [->|Hn].
    + destruct v; split; try discriminate;
        try (intros _; right; right; done);
        intros [[_ ?]|[[? _]|[_ H]]]; try done. by destruct (H s).
    + split; [by left | done].
Qed.

Lemma schema_accepts d :
  map_Forall (fun k v => schema_entry k v = true) d →
  ITEM_UPDATE_SCHEMA (VDict d) = inr d.
Proof.
  intros H. unfold ITEM_UPDATE_SCHEMA. by rewrite bool_decide_eq_true_2.
Qed.

Lemma schema_refuses d k v :
  d !! k = Some v → malformed_entry k v →
  ITEM_UPDATE_SCHEMA (VDict d) = inl Invalid.
Proof.
  intros Hk Hbad. unfold ITEM_UPDATE_SCHEMA.
  rewrite bool_decide_eq_false_2; [done|].
  intros Hall. apply schema_entry_false in Hbad.
  specialize (Hall k v Hk). simpl in Hall. congruence.
Qed.

(** The schema either raises [Invalid] or returns the dictionary it was
    given, all of whose entries it has checked. *)
Lemma schema_cases info :
  ITEM_UPDATE_SCHEMA info = inl Invalid
  ∨ ∃ d, info = VDict d ∧ ITEM_UPDATE_SCHEMA info = inr d
         ∧ map_Forall (fun k v => schema_entry k v = true) d.
Proof.
  destruct info; try (by left). simpl. case_bool_decide; [|by left].
  right. eauto.
Qed.

Lemma schema_empty : ITEM_UPDATE_SCHEMA (VDict ∅) = inr ∅.
Proof. apply schema_accepts, map_Forall_empty. Qed.

(** A validated patch cannot reach the key [id]: written over an item it
    gives the item with the patched name and flag. *)
Lemma union_patched d it :
  map_Forall (fun k v => schema_entry k v = true) d →
  d ∪ Item.to_dict it = Item.to_dict (Item.patched d it).
Proof.
  intros Hall. apply map_eq. intros k. rewrite lookup_union.
  destruct (d !! k) as [v|] eqn:Hk.
  - pose proof (Hall k v Hk) as Hv. simpl in Hv.
    apply schema_entry_true in Hv as [[-> [b ->]]|[-> [s ->]]].
    + rewrite !to_dict_complete. simpl. by rewrite Hk.
    + rewrite !to_dict_name. simpl. by rewrite Hk.
  - rewrite (left_id_L None _).
    destruct (decide (k = "name")) as [->|Hn].
    { rewrite !to_dict_name. simpl. by rewrite Hk. }
    destruct (decide (k = "id")) as [->|Hi]; [done|].
    destruct (decide (k = "complete")) as [->|Hc].
    { rewrite !to_dict_complete. simpl. by rewrite Hk. }
    by rewrite !to_dict_other.
Qed.

(** ** Looking an item up by its id *)

Lemma insert_at_middle {A} (l1 l2 : list A) (x y : A) :
  <[length l1 := y]> (l1 ++ x :: l2) = l1 ++ y :: l2.
Proof. rewrite insert_app_r_alt by lia. by rewrite Nat.sub_diag. Qed.

Lemma next_with_id_absent l item_id pos :
  item_id ∉ Item.id <$> l →
  ShoppingData.next_with_id (Item.to_dict <$> l) item_id pos = inr None.
Proof.
  revert pos. induction l as [|it l IH]; intros pos Hnot; [done|].
  rewrite fmap_cons, not_elem_of_cons in Hnot. destruct Hnot as [Hne Hnot].
  simpl. unfold getitem. rewrite to_dict_id. simpl.
  destruct (String.eqb_spec (Item.id it) item_id); [congruence|].
  by apply IH.
Qed.

Lemma next_with_id_first l1 it l2 pos :
  Item.id it ∉ Item.id <$> l1 →
  ShoppingData.next_with_id (Item.to_dict <$> (l1 ++ it :: l2))
    (Item.id it) pos
  = inr (Some ((pos + length l1)%nat, Item.to_dict it)).
Proof.
  revert pos. induction l1 as [|it1 l1 IH]; intros pos Hnot.
  - simpl. unfold getitem. rewrite to_dict_id. simpl.
    rewrite String.eqb_refl. do 3 f_equal. lia.
  - rewrite fmap_cons, not_elem_of_cons in Hnot. destruct Hnot as [Hne Hnot].
    simpl. unfold getitem. rewrite to_dict_id. simpl.
    destruct (String.eqb_spec (Item.id it1) (Item.id it)); [congruence|].
    rewrite IH by done. do 3 f_equal. lia.
Qed.

(** An id of the list has a first item that carries it. *)
Lemma first_with_id l item_id :
  item_id ∈ Item.id <$> l →
  ∃ l1 it l2, l = l1 ++ it :: l2 ∧ Item.id it = item_id
              ∧ item_id ∉ Item.id <$> l1.
Proof.
  induction l as [|it l IH]; intros Hin.
  - by apply elem_of_nil in Hin.
  - destruct (decide (Item.id it = item_id)) as [Heq|Hne].
    + exists [], it, l. split_and!; [done|done|]. apply not_elem_of_nil.
    + rewrite fmap_cons in Hin. apply elem_of_cons in Hin as [Heq|Hin];
        [congruence|].
      destruct (IH Hin) as (l1 & it' & l2 & -> & Hid & Hnot).
      exists (it :: l1), it', l2. split_and!; [done|done|].
      rewrite fmap_cons. apply not_elem_of_cons. split; [congruence|done].
Qed.

(** ** The three operations on a store of items *)

Lemma add_store_of l name urandom :
  ShoppingData.add name urandom (store_of l)
  = (inr VNone, store_of (l ++ [Item.created name urandom])).
Proof.
  unfold ShoppingData.add, store_of, ShoppingData.__init__. py_run.
  by rewrite fmap_app.
Qed.

Lemma update_absent l item_id info :
  item_id ∉ Item.id <$> l →
  ShoppingData.update item_id info (store_of l) = (inl KeyError, store_of l).
Proof.
  intros Hnot. unfold ShoppingData.update. py_run.
  by rewrite next_with_id_absent.
Qed.

Lemma update_first l1 it l2 info :
  Item.id it ∉ Item.id <$> l1 →
  ShoppingData.update (Item.id it) info (store_of (l1 ++ it :: l2))
  = match ITEM_UPDATE_SCHEMA info with
    | inl e => (inl e, store_of (l1 ++ it :: l2))
    | inr d => (inr (VDict (Item.to_dict (Item.patched d it))),
                store_of (l1 ++ Item.patched d it :: l2))
    end.
Proof.
  intros Hnot. unfold ShoppingData.update. py_run.
  rewrite next_with_id_first by done. simpl.
  destruct (schema_cases info) as [->|(d & -> & -> & Hall)]; [done|].
  unfold store_of, ShoppingData.__init__. simpl.
  rewrite union_patched by done. do 3 f_equal.
  rewrite !fmap_app, !fmap_cons.
  rewrite <- (length_fmap Item.to_dict l1). apply insert_at_middle.
Qed.

(** The form the claims on [update] use: the item found is the first one
    with the id, at a position [i] of the list, and a successful update
    replaces the item at [i] and nothing else. *)
Lemma update_existing l item_id info :
  item_id ∈ Item.id <$> l →
  ∃ i it,
    l !! i = Some it ∧ Item.id it = item_id
    ∧ (∀ j it', (j < i)%nat → l !! j = Some it' → Item.id it' ≠ item_id)
    ∧ ShoppingData.update item_id info (store_of l)
      = match ITEM_UPDATE_SCHEMA info with
        | inl e => (inl e, store_of l)
        | inr d => (inr (VDict (Item.to_dict (Item.patched d it))),
                    store_of (<[i := Item.patched d it]> l))
        end.
Proof.
  intros Hin. destruct (first_with_id l item_id Hin)
    as (l1 & it & l2 & -> & <- & Hnot).
  exists (length l1), it. split_and!.
  - by rewrite list_lookup_middle.
  - done.
  - intros j it' Hj Hlook Heq. rewrite lookup_app_l in Hlook by done.
    apply Hnot. rewrite <- Heq. apply list_elem_of_fmap.
    exists it'. split; [done|]. by eapply list_elem_of_lookup_2.
  - rewrite update_first by done.
    destruct (ITEM_UPDATE_SCHEMA info); [done|]. by rewrite insert_at_middle.
Qed.

Lemma not_complete_filter l :
  ShoppingData.not_complete (Item.to_dict <$> l)
  = inr (Item.to_dict
           <$> List.filter (fun it => negb (Item.complete it)) l).
Proof.
  induction l as [|it l IH]; [done|].
  rewrite fmap_cons. simpl. unfold getitem. rewrite to_dict_complete.
  simpl. rewrite IH. simpl. by destruct (Item.complete it).
Qed.

Lemma clear_completed_store_of l :
  ShoppingData.clear_completed (store_of l)
  = (inr VNone,
     store_of (List.filter (fun it => negb (Item.complete it)) l)).
Proof.
  unfold ShoppingData.clear_completed. py_run.
  by rewrite not_complete_filter.
Qed.

(** ** Histories: the shape of every reachable store *)

Lemma store_of_inj : Inj (=) (=) store_of.
Proof.
  intros l1 l2 H. injection H as H.
  eapply (inj (fmap Item.to_dict)), H.
  Unshelve. apply list_fmap_eq_inj, to_dict_inj.
Qed.

Lemma patched_id d it : Item.id (Item.patched d it) = Item.id it.
Proof. reflexivity. Qed.

Lemma ids_insert_patched (l : list Item.t) (i : nat) it d :
  l !! i = Some it →
  Item.id <$> <[i := Item.patched d it]> l = Item.id <$> l.
Proof.
  intros Hi. rewrite list_fmap_insert, patched_id.
  apply list_insert_id. by rewrite list_lookup_fmap, Hi.
Qed.

Lemma filter_sublist {A} (f : A → bool) (l : list A) :
  List.filter f l `sublist_of` l.
Proof.
  induction l as [|a l IH]; simpl; [constructor|].
  destruct (f a); by constructor.
Qed.

(** One call keeps the store a list of items, and the ids it leaves are,
    in order, among those it found followed by the one it drew. *)
Lemma run_op_store_of o l0 :
  ∃ l1, snd (run_op o (store_of l0)) = store_of l1
        ∧ (Item.id <$> l1)
          `sublist_of` (Item.id <$> l0) ++ (hex <$> drawn [o]).
Proof.
  destruct o as [name urandom|item_id info|]; unfold run_op.
  - exists (l0 ++ [Item.created name urandom]).
    rewrite add_store_of. split; [done|]. by rewrite fmap_app.
  - destruct (decide (item_id ∈ Item.id <$> l0)) as [Hin|Hnot].
    + destruct (update_existing l0 item_id info Hin)
        as (i & it & Hi & _ & _ & ->).
      destruct (ITEM_UPDATE_SCHEMA info) as [e|d].
      * exists l0. split; [done|]. by rewrite app_nil_r.
      * exists (<[i := Item.patched d it]> l0). split; [done|].
        by rewrite ids_insert_patched, app_nil_r.
    + exists l0. rewrite update_absent by done.
      split; [done|]. by rewrite app_nil_r.
  - exists (List.filter (fun it => negb (Item.complete it)) l0).
    rewrite clear_completed_store_of. split; [done|].
    rewrite app_nil_r. apply fmap_sublist, filter_sublist.
Qed.

Lemma drawn_cons o ops : drawn (o :: ops) = drawn [o] ++ drawn ops.
Proof. unfold drawn. simpl. by destruct o. Qed.

Lemma exec_store_of ops l0 :
  ∃ l, exec ops (store_of l0) = store_of l
       ∧ (Item.id <$> l)
         `sublist_of` (Item.id <$> l0) ++ (hex <$> drawn ops).
Proof.
  revert l0. induction ops as [|o ops IH]; intros l0.
  - exists l0. split; [done|]. by rewrite app_nil_r.
  - destruct (run_op_store_of o l0) as (l1 & Hrun & Hsub1).
    destruct (IH l1) as (l & Hexec & Hsub).
    exists l. split.
    + simpl. by rewrite Hrun.
    + rewrite drawn_cons, fmap_app, app_assoc. etrans; [exact Hsub|].
      by apply sublist_app.
Qed.

Lemma exec_adds calls l0 :
  exec ((fun c => Add c.1 c.2) <$> calls) (store_of l0)
  = store_of (l0 ++ ((fun c => Item.created c.1 c.2) <$> calls)).
Proof.
  revert l0. induction calls as [|[name urandom] calls IH]; intros l0.
  - simpl. by rewrite app_nil_r.
  - rewrite !fmap_cons. unfold exec in *. cbn [fold_left run_op fst snd].
    rewrite add_store_of. cbn [snd]. rewrite IH. by rewrite <- app_assoc.
Qed.

(** ** The claims *)






(** C3. For every store of items and every id of one of them,
    [update(id, {complete: b})] replaces the first item with that id by
    the same item with [complete] set to [b]: its name and id are kept and
    every other position of the list is as before. A patch with only
    [name] likewise changes the name alone. *)
Theorem update_changes_only_patched_field
    (l : list Item.t) (item_id : string) :
  item_id ∈ Item.id <$> l →
  ∃ (i : nat) (it : Item.t),
    l !! i = Some it ∧ Item.id it = item_id
    ∧ (∀ b : bool,
         let it' := {| Item.name := Item.name it;
                       Item.id := Item.id it;
                       Item.complete := b |} in
         ShoppingData.update item_id (VDict {[ "complete" := VBool b ]})
           (store_of l)
         = (inr (VDict (Item.to_dict it')), store_of (<[i := it']> l))
         ∧ ∀ j : nat, j ≠ i → <[i := it']> l !! j = l !! j)
    ∧ (∀ n : string,
         let it' := {| Item.name := n;
                       Item.id := Item.id it;
                       Item.complete := Item.complete it |} in
         ShoppingData.update item_id (VDict {[ "name" := VStr n ]})
           (store_of l)
         = (inr (VDict (Item.to_dict it')), store_of (<[i := it']> l))
         ∧ ∀ j : nat, j ≠ i → <[i := it']> l !! j = l !! j).
Proof.
  intros Hin. destruct (first_with_id l item_id Hin)
    as (l1 & it & l2 & -> & <- & Hnot).
  exists (length l1), it. split_and!.
  - by rewrite list_lookup_middle.
  - done.
  - intros b it'. split.
    + rewrite update_first by done. rewrite schema_accepts.
      * by rewrite insert_at_middle.
      * apply map_Forall_singleton. reflexivity.
    + intros j Hj. by apply list_lookup_insert_ne.
  - intros n it'. split.
    + rewrite update_first by done. rewrite schema_accepts.
      * by rewrite insert_at_middle.
      * apply map_Forall_singleton. reflexivity.
    + intros j Hj. by apply list_lookup_insert_ne.
Qed.

Lemma update_changes_only_patched_field_witness :
  ∃ (i : nat) (it : Item.t),
    [Item.created "eggs" 1; Item.created "bread" 2] !! i = Some it
    ∧ ShoppingData.update (hex (uuid4 2))
        (VDict {[ "complete" := VBool true ]})
        (store_of [Item.created "eggs" 1; Item.created "bread" 2])
      = (inr (VDict (Item.to_dict
                {| Item.name := Item.name it;
                   Item.id := Item.id it;
                   Item.complete := true |})),
         store_of (<[i := {| Item.name := Item.name it;
                             Item.id := Item.id it;
                             Item.complete := true |}]>
                     [Item.created "eggs" 1; Item.created "bread" 2])).
Proof.
  destruct (update_changes_only_patched_field
              [Item.created "eggs" 1; Item.created "bread" 2] (hex (uuid4 2)))
    as (i & it & Hi & _ & Hc & _).
  - apply (bool_decide_unpack _). vm_compute. exact I.
  - exists i, it. split; [exact Hi|]. apply (Hc true).
Defined.

(** C4. For every store of items, every id that none of them carries and
    every payload, well-formed or not, [update] raises [KeyError], the
    not-found failure, and the store is as before: the lookup comes before
    the validation of the payload. *)
Theorem update_absent_id_not_found
    (l : list Item.t) (item_id : string) (info : value) :
  item_id ∉ Item.id <$> l →
  ShoppingData.update item_id info (store_of l) = (inl KeyError, store_of l).
Proof. apply update_absent. Qed.

Lemma update_absent_id_not_found_witness :
  ShoppingData.update "no-such-id" (VDict {[ "complete" := VInt 1 ]})
    (store_of [Item.created "eggs" 1])
  = (inl KeyError, store_of [Item.created "eggs" 1]).
Proof.
  apply (update_absent_id_not_found [Item.created "eggs" 1] "no-such-id").
  apply (bool_decide_unpack _). vm_compute. exact I.
Defined.

(** C5. For every store of items and every id of one of them, a patch
    with a key outside the schema, or with a value of the wrong type under
    [complete] or [name], makes [update] raise [Invalid], the validation
    failure. The view answers it with status 400 and an absent id with
    status 404, both with the message "Item not found", and in both cases
    nothing is stored and no event is fired. *)
Theorem update_malformed_patch_invalid
    (l : list Item.t) (events : list string) (item_id : string)
    (d : dict) (k : string) (v : value) :
  item_id ∈ Item.id <$> l →
  d !! k = Some v →
  malformed_entry k v →
  let hass := {| data := store_of l; bus := events |} in
  ShoppingData.update item_id (VDict d) (store_of l)
  = (inl Invalid, store_of l)
  ∧ UpdateShoppingListItemView.post (VDict d) item_id hass
    = (inr {| status := 400;
              body := VDict {[ "message" := VStr "Item not found" ]} |},
       hass)
  ∧ (∀ (other_id : string) (info : value),
       other_id ∉ Item.id <$> l →
       UpdateShoppingListItemView.post info other_id hass
       = (inr {| status := 404;
                 body := VDict {[ "message" := VStr "Item not found" ]} |},
          hass)).
Proof.
  intros Hin Hk Hbad hass.
  assert (ShoppingData.update item_id (VDict d) (store_of l)
          = (inl Invalid, store_of l)) as Hupd.
  { destruct (update_existing l item_id (VDict d) Hin)
      as (i & it & _ & _ & _ & ->).
    by rewrite (schema_refuses d k v). }
  split_and!.
  - exact Hupd.
  - unfold UpdateShoppingListItemView.post, on_data. py_run.
    by rewrite Hupd.
  - intros other_id info Hnot.
    unfold UpdateShoppingListItemView.post, on_data. py_run.
    by rewrite update_absent.
Qed.

Lemma update_malformed_patch_invalid_witness :
  ShoppingData.update (hex (uuid4 1)) (VDict {[ "complete" := VInt 1 ]})
    (store_of [Item.created "eggs" 1])
  = (inl Invalid, store_of [Item.created "eggs" 1])
  ∧ UpdateShoppingListItemView.post (VDict {[ "complete" := VInt 1 ]})
      (hex (uuid4 1)) {| data := store_of [Item.created "eggs" 1]; bus := [] |}
    = (inr {| status := 400;
              body := VDict {[ "message" := VStr "Item not found" ]} |},
       {| data := store_of [Item.created "eggs" 1]; bus := [] |}).
Proof.
  destruct (update_malformed_patch_invalid [Item.created "eggs" 1] []
              (hex (uuid4 1)) {[ "complete" := VInt 1 ]} "complete" (VInt 1))
    as (Hupd & Hpost & _).
  - apply (bool_decide_unpack _). vm_compute. exact I.
  - reflexivity.
  - right. left. split; [reflexivity|]. intros b. discriminate.
  - split; [exact Hupd|exact Hpost].
Defined.

(** C6. For every store of items, [clear_completed] keeps exactly the
    items whose [complete] is false, in the order they had, and a second
    call right after the first changes nothing. *)
Theorem clear_completed_exact_idempotent (l : list Item.t) :
  let kept := List.filter (fun it => negb (Item.complete it)) l in
  ShoppingData.clear_completed (store_of l) = (inr VNone, store_of kept)
  ∧ (∀ it : Item.t, it ∈ kept ↔ it ∈ l ∧ Item.complete it = false)
  ∧ kept `sublist_of` l
  ∧ ShoppingData.clear_completed (store_of kept) = (inr VNone, store_of kept).
Proof.
  intros kept. split_and!.
  - apply clear_completed_store_of.
  - intros it. unfold kept. rewrite !list_elem_of_In, filter_In.
    by rewrite negb_true_iff.
  - apply filter_sublist.
  - rewrite clear_completed_store_of. do 2 f_equal.
    unfold kept. clear kept. induction l as [|it l IH]; [done|].
    simpl. destruct (Item.complete it) eqn:Hc; simpl; [done|].
    by rewrite Hc, IH.
Qed.

Lemma last_slice_fmap {A B} (f : A → B) (n : nat) (l : list A) :
  last_slice n (f <$> l) = f <$> last_slice n l.
Proof. unfold last_slice. by rewrite fmap_drop, length_fmap. Qed.

Lemma fmap_rev {A B} (f : A → B) (l : list A) :
  f <$> rev l = rev (f <$> l).
Proof.
  induction l as [|a l IH]; [done|].
  rewrite fmap_cons. simpl. by rewrite fmap_app, IH.
Qed.

Lemma last_slice_length {A} (n : nat) (l : list A) :
  length (last_slice n l) = (length l `min` n)%nat.
Proof. unfold last_slice. rewrite length_drop. lia. Qed.

Lemma traverse_names (l : list Item.t) :
  Exc.traverse (fun itm => getitem itm "name") (Item.to_dict <$> l)
  = inr ((fun it => VStr (Item.name it)) <$> l).
Proof.
  induction l as [|it l IH]; [done|].
  rewrite fmap_cons. simpl. unfold getitem at 1. rewrite to_dict_name.
  simpl. by rewrite IH.
Qed.

Lemma str_join_names sep (l : list Item.t) :
  str_join sep ((fun it => VStr (Item.name it)) <$> l)
  = inr (String.concat sep (Item.name <$> l)).
Proof.
  unfold str_join.
  assert (Exc.traverse
            (fun v => match v with VStr s => inr s | _ => inl TypeError end)
            ((fun it => VStr (Item.name it)) <$> l)
          = inr (Item.name <$> l)) as ->; [|done].
  induction l as [|it l IH]; [done|]. rewrite fmap_cons. simpl.
  by rewrite IH.
Qed.

(** C7. For every store of items, the top-items intent reads the last
    five items of the list, fewer when the list is shorter, and its speech
    enumerates their names from the most recently added one back; on an
    empty list the speech is the fixed sentence and nothing is raised;
    the store and the bus are left as they were. After [add("eggs")] and
    [add("bread")] on the empty store the names enumerated are bread,
    eggs. *)
Theorem top_items_most_recent_first
    (l : list Item.t) (events : list string) :
  let hass := {| data := store_of l; bus := events |} in
  ∃ (older top : list Item.t),
    l = older ++ rev top
    ∧ length top = (length l `min` 5)%nat
    ∧ ListTopItemsIntent.async_handle hass
      = (inr {| speech :=
             match l with
             | [] => "There are no items on your shopping list"
             | _ => "These are the top " ++ pretty (length top) ++
                    " items on your shopping list: " ++
                    String.concat ", " (Item.name <$> top)
             end |}, hass)
    ∧ (∀ r1 r2 : Z,
         ListTopItemsIntent.async_handle
           {| data := exec [Add "eggs" r1; Add "bread" r2]
                        (ShoppingData.__init__ []);
              bus := events |}
         = (inr {| speech := "These are the top 2 items on your shopping list: "
                             ++ String.concat ", " ["bread"; "eggs"] |},
            {| data := exec [Add "eggs" r1; Add "bread" r2]
                         (ShoppingData.__init__ []);
               bus := events |})).
Proof.
  intros hass.
  exists (take (length l - 5) l), (rev (last_slice 5 l)). split_and!.
  - rewrite rev_involutive. unfold last_slice. by rewrite take_drop.
  - by rewrite length_rev, last_slice_length.
  - unfold ListTopItemsIntent.async_handle. py_run.
    rewrite last_slice_fmap.
    destruct (last_slice 5 l) as [|it top] eqn:Htop.
    + assert (l = []) as ->; [|done].
      apply (f_equal length) in Htop. rewrite last_slice_length in Htop.
      destruct l; [done|]. simpl in Htop. lia.
    + destruct l as [|it0 l0]; [done|]. rewrite <- Htop.
      destruct (Item.to_dict <$> last_slice 5 (it0 :: l0)) as [|d ds] eqn:Hd.
      { rewrite Htop in Hd. done. }
      rewrite <- Hd. rewrite <- fmap_rev, traverse_names. simpl.
      rewrite str_join_names. simpl.
      rewrite length_fmap, length_rev.
      assert (length (last_slice 5 (it0 :: l0)) `min` 5
              = length (last_slice 5 (it0 :: l0)))%nat as ->; [|done].
      rewrite last_slice_length. lia.
  - intros r1 r2. reflexivity.
Qed.

(** C8. On the empty store, after [add("milk")], the list view answers
    with status 200 and a JSON array of exactly one item, with name
    "milk", [complete] false and an id that is not the empty string; for
    every store, the array holds the items in store order. *)
Theorem get_after_add_milk (urandom : Z) (events : list string) :
  let s := snd (ShoppingData.add "milk" urandom (ShoppingData.__init__ [])) in
  (∃ item_id : string,
     item_id ≠ ""
     ∧ ShoppingListView.get {| data := s; bus := events |}
       = (inr {| status := 200;
                 body := VList [VDict {[ "name" := VStr "milk";
                                         "id" := VStr item_id;
                                         "complete" := VBool false ]}] |},
          {| data := s; bus := events |}))
  ∧ (∀ l : list Item.t,
       ShoppingListView.get {| data := store_of l; bus := events |}
       = (inr {| status := 200;
                 body := VList ((fun it => VDict (Item.to_dict it)) <$> l) |},
          {| data := store_of l; bus := events |})).
Proof.
  intros s. split.
  - exists (hex (uuid4 urandom)). split; [|reflexivity].
    intros Hempty. apply (f_equal String.length) in Hempty.
    unfold hex in Hempty. rewrite hexdigits_length in Hempty. discriminate.
  - intros l. unfold ShoppingListView.get, json. py_run.
    by rewrite <- list_fmap_compose.
Qed.

Lemma patched_empty it : Item.patched ∅ it = it.
Proof. by destruct it. Qed.

(** C9. For every store of items and every id of one of them,
    [update(id, {})] passes the schema, returns the item with that id and
    leaves the store exactly as it was. *)
Theorem update_empty_patch_noop (l : list Item.t) (item_id : string) :
  item_id ∈ Item.id <$> l →
  ∃ it : Item.t,
    it ∈ l ∧ Item.id it = item_id
    ∧ ITEM_UPDATE_SCHEMA (VDict ∅) = inr ∅
    ∧ ShoppingData.update item_id (VDict ∅) (store_of l)
      = (inr (VDict (Item.to_dict it)), store_of l).
Proof.
  intros Hin.
  destruct (update_existing l item_id (VDict ∅) Hin)
    as (i & it & Hi & Hid & _ & Hupd).
  exists it. split_and!.
  - by eapply list_elem_of_lookup_2.
  - done.
  - apply schema_empty.
  - rewrite Hupd, schema_empty, patched_empty. by rewrite list_insert_id.
Qed.

Lemma update_empty_patch_noop_witness :
  ∃ it : Item.t,
    it ∈ [Item.created "eggs" 1; Item.created "bread" 2]
    ∧ ShoppingData.update (hex (uuid4 2)) (VDict ∅)
        (store_of [Item.created "eggs" 1; Item.created "bread" 2])
      = (inr (VDict (Item.to_dict it)),
         store_of [Item.created "eggs" 1; Item.created "bread" 2]).
Proof.
  destruct (update_empty_patch_noop
              [Item.created "eggs" 1; Item.created "bread" 2] (hex (uuid4 2)))
    as (it & Hit & _ & _ & Hupd).
  - apply (bool_decide_unpack _). vm_compute. exact I.
  - exists it. split; [exact Hit|exact Hupd].
Defined.

Lemma next_with_id_raises items item_id pos e :
  ShoppingData.next_with_id items item_id pos = inl e → e = KeyError.
Proof.
  revert pos. induction items as [|itm items IH]; intros pos; simpl.
  - discriminate.
  - unfold getitem. destruct (itm !! "id") as [v|]; simpl.
    + destruct (eq_str v item_id); [discriminate|]. apply IH.
    + congruence.
Qed.

(** C10. For every store, of whatever dictionaries, whenever [update]
    raises, the exception is [KeyError] or [Invalid] and the store is the
    one the call found: the lookup and the validation both come before the
    one write. *)
Theorem update_failure_leaves_store
    (s s' : ShoppingData.t) (item_id : string) (info : value) (e : exn) :
  ShoppingData.update item_id info s = (inl e, s') →
  s' = s ∧ (e = KeyError ∨ e = Invalid).
Proof.
  unfold ShoppingData.update. py_run.
  destruct (ShoppingData.next_with_id (ShoppingData.items s) item_id 0)
    as [e0|[[pos item]|]] eqn:Hnext.
  - intros [= <- <-]. split; [done|]. left.
    by eapply next_with_id_raises.
  - destruct (schema_cases info) as [->|(d & _ & -> & _)].
    + intros [= <- <-]. split; [done|]. by right.
    + discriminate.
  - intros [= <- <-]. split; [done|]. by left.
Qed.

Lemma update_failure_leaves_store_witness :
  store_of [Item.created "eggs" 1] = store_of [Item.created "eggs" 1]
  ∧ (Invalid = KeyError ∨ Invalid = Invalid).
Proof.
  apply (update_failure_leaves_store
           (store_of [Item.created "eggs" 1]) (store_of [Item.created "eggs" 1])
           (hex (uuid4 1)) (VDict {[ "id" := VStr "mine" ]}) Invalid).
  reflexivity.
Defined.

(** ** More on [update] *)

Lemma eq_str_true v s : eq_str v s = true → v = VStr s.
Proof.
  destruct v; simpl; try discriminate. intros H.
  by apply String.eqb_eq in H as ->.
Qed.

Lemma next_with_id_found items item_id pos0 pos itm :
  ShoppingData.next_with_id items item_id pos0 = inr (Some (pos, itm)) →
  ∃ i : nat, pos = (pos0 + i)%nat ∧ items !! i = Some itm
             ∧ itm !! "id" = Some (VStr item_id).
Proof.
  revert pos0. induction items as [|d items IH]; intros pos0; simpl.
  - discriminate.
  - unfold getitem. destruct (d !! "id") as [v|] eqn:Hid; simpl;
      [|discriminate].
    destruct (eq_str v item_id) eqn:Heq.
    + intros [= <- <-]. exists 0%nat. split_and!; [lia|done|].
      by rewrite Hid, (eq_str_true _ _ Heq).
    + intros H. destruct (IH _ H) as (i & -> & Hi & Hitm).
      exists (S i). split_and!; [lia|done|done].
Qed.

(** What a call of [update] can do, on a store of any dictionaries. *)
Lemma update_cases s item_id info :
  ShoppingData.update item_id info s = (inl KeyError, s)
  ∨ ShoppingData.update item_id info s = (inl Invalid, s)
  ∨ ∃ (pos : nat) (item d : dict),
      info = VDict d
      ∧ map_Forall (fun k v => schema_entry k v = true) d
      ∧ ShoppingData.items s !! pos = Some item
      ∧ item !! "id" = Some (VStr item_id)
      ∧ ShoppingData.update item_id info s
        = (inr (VDict (d ∪ item)),
           ShoppingData.__init__ (<[pos := d ∪ item]> (ShoppingData.items s))).
Proof.
  unfold ShoppingData.update. py_run.
  destruct (ShoppingData.next_with_id (ShoppingData.items s) item_id 0)
    as [e|[[pos item]|]] eqn:Hnext.
  - left. by rewrite (next_with_id_raises _ _ _ _ Hnext).
  - destruct (schema_cases info) as [->|(d & -> & -> & Hall)].
    + right. by left.
    + right. right.
      destruct (next_with_id_found _ _ _ _ _ Hnext) as (i & -> & Hi & Hid).
      exists i, item, d. by split_and!.
  - by left.
Qed.

Lemma patched_idem d it :
  Item.patched d (Item.patched d it) = Item.patched d it.
Proof.
  destruct it as [n i c]. unfold Item.patched. simpl.
  f_equal.
  - by destruct (d !! "name") as [[]|].
  - by destruct (d !! "complete") as [[]|].
Qed.

Lemma patch_first_absent item_id d l :
  item_id ∉ Item.id <$> l → patch_first item_id d l = l.
Proof.
  induction l as [|it l IH]; [done|]. rewrite fmap_cons, not_elem_of_cons.
  intros [Hne Hnot]. simpl.
  destruct (String.eqb_spec (Item.id it) item_id); [congruence|].
  by rewrite IH.
Qed.

Lemma patch_first_middle l1 it l2 d :
  Item.id it ∉ Item.id <$> l1 →
  patch_first (Item.id it) d (l1 ++ it :: l2) = l1 ++ Item.patched d it :: l2.
Proof.
  induction l1 as [|it1 l1 IH]; simpl.
  - by rewrite String.eqb_refl.
  - rewrite not_elem_of_cons. intros [Hne Hnot].
    destruct (String.eqb_spec (Item.id it1) (Item.id it)); [congruence|].
    by rewrite IH.
Qed.

(** The store after [update], whether it raised or not. *)
Lemma update_patch_first l item_id info :
  snd (ShoppingData.update item_id info (store_of l))
  = store_of match ITEM_UPDATE_SCHEMA info with
             | inr d => patch_first item_id d l
             | inl _ => l
             end.
Proof.
  destruct (decide (item_id ∈ Item.id <$> l)) as [Hin|Hnot].
  - destruct (first_with_id l item_id Hin)
      as (l1 & it & l2 & -> & <- & Hnot).
    rewrite update_first by done.
    destruct (ITEM_UPDATE_SCHEMA info) as [e|d]; [done|].
    by rewrite patch_first_middle.
  - rewrite update_absent by done.
    destruct (ITEM_UPDATE_SCHEMA info) as [e|d]; [done|].
    by rewrite patch_first_absent.
Qed.

Lemma patch_first_ids item_id d l :
  Item.id <$> patch_first item_id d l = Item.id <$> l.
Proof.
  induction l as [|it l IH]; [done|]. simpl.
  destruct (String.eqb (Item.id it) item_id); [done|].
  by rewrite !fmap_cons, IH.
Qed.

Lemma patch_first_commute id1 id2 d1 d2 l :
  id1 ≠ id2 →
  patch_first id2 d2 (patch_first id1 d1 l)
  = patch_first id1 d1 (patch_first id2 d2 l).
Proof.
  intros Hne. induction l as [|it l IH]; [done|]. simpl.
  destruct (String.eqb_spec (Item.id it) id1) as [H1|H1];
    destruct (String.eqb_spec (Item.id it) id2) as [H2|H2]; simpl.
  - congruence.
  - destruct (String.eqb_spec (Item.id it) id2); [done|].
    by destruct (String.eqb_spec (Item.id it) id1).
  - destruct (String.eqb_spec (Item.id it) id1); [done|].
    by destruct (String.eqb_spec (Item.id it) id2).
  - destruct (String.eqb_spec (Item.id it) id2); [done|].
    destruct (String.eqb_spec (Item.id it) id1); [done|].
    by rewrite IH.
Qed.

Lemma schema_lookup_other (d : dict) (k : string) :
  map_Forall (fun k v => schema_entry k v = true) d →
  k ≠ "complete" → k ≠ "name" → d !! k = None.
Proof.
  intros Hall Hc Hn. destruct (d !! k) as [v|] eqn:Hk; [|done].
  pose proof (Hall k v Hk) as Hv. simpl in Hv.
  apply schema_entry_true in Hv as [[-> _]|[-> _]]; done.
Qed.

(** ** Further properties *)

(** X1. The payloads that pass [ITEM_UPDATE_SCHEMA] are exactly the four
    dictionaries [{}], [{complete: b}], [{name: s}] and
    [{complete: b, name: s}] with [b] a boolean and [s] a string, and the
    schema returns them as they are; every other payload, of whatever
    type, raises [Invalid]. *)
Theorem schema_accepts_four_shapes (info : value) :
  (∃ d : dict,
     info = VDict d ∧ ITEM_UPDATE_SCHEMA info = inr d
     ∧ (d = ∅
        ∨ (∃ b, d = {[ "complete" := VBool b ]})
        ∨ (∃ s, d = {[ "name" := VStr s ]})
        ∨ (∃ b s, d = {[ "complete" := VBool b; "name" := VStr s ]})))
  ∨ (ITEM_UPDATE_SCHEMA info = inl Invalid
     ∧ ∀ b s,
         info ≠ VDict ∅
         ∧ info ≠ VDict {[ "complete" := VBool b ]}
         ∧ info ≠ VDict {[ "name" := VStr s ]}
         ∧ info ≠ VDict {[ "complete" := VBool b; "name" := VStr s ]}).
Proof.
  destruct (schema_cases info) as [Hinv|(d & -> & Hok & Hall)].
  - right. split; [done|]. intros b s.
    split_and!; intros ->; rewrite schema_accepts in Hinv.
    + discriminate Hinv.
    + apply map_Forall_empty.
    + discriminate Hinv.
    + by apply map_Forall_singleton.
    + discriminate Hinv.
    + by apply map_Forall_singleton.
    + discriminate Hinv.
    + apply map_Forall_insert_2; [done|]. by apply map_Forall_singleton.
  - left. exists d. split_and!; [done|done|].
    destruct (d !! "complete") as [vc|] eqn:Hc;
      destruct (d !! "name") as [vn|] eqn:Hn.
    + right. right. right.
      pose proof (Hall _ _ Hc) as H1. pose proof (Hall _ _ Hn) as H2.
      simpl in H1, H2.
      apply schema_entry_true in H1 as [[_ [b ->]]|[? _]]; [|done].
      apply schema_entry_true in H2 as [[? _]|[_ [s ->]]]; [done|].
      exists b, s. apply map_eq. intros k.
      destruct (decide (k = "complete")) as [->|Hkc]; [by rewrite Hc|].
      rewrite lookup_insert_ne by done.
      destruct (decide (k = "name")) as [->|Hkn];
        [by rewrite Hn, lookup_singleton_eq|].
      rewrite lookup_singleton_ne by done. by apply schema_lookup_other.
    + right. left.
      pose proof (Hall _ _ Hc) as H1. simpl in H1.
      apply schema_entry_true in H1 as [[_ [b ->]]|[? _]]; [|done].
      exists b. apply map_eq. intros k.
      destruct (decide (k = "complete")) as [->|Hkc];
        [by rewrite Hc, lookup_singleton_eq|].
      rewrite lookup_singleton_ne by done.
      destruct (decide (k = "name")) as [->|Hkn]; [done|].
      by apply schema_lookup_other.
    + right. right. left.
      pose proof (Hall _ _ Hn) as H2. simpl in H2.
      apply schema_entry_true in H2 as [[? _]|[_ [s ->]]]; [done|].
      exists s. apply map_eq. intros k.
      destruct (decide (k = "name")) as [->|Hkn];
        [by rewrite Hn, lookup_singleton_eq|].
      rewrite lookup_singleton_ne by done.
      destruct (decide (k = "complete")) as [->|Hkc]; [done|].
      by apply schema_lookup_other.
    + left. apply map_eq. intros k. rewrite lookup_empty.
      destruct (decide (k = "complete")) as [->|Hkc]; [done|].
      destruct (decide (k = "name")) as [->|Hkn]; [done|].
      by apply schema_lookup_other.
Qed.

(** X2. [update] cannot change an id. Whatever the id and the payload,
    the store after the call holds the same ids in the same order; and a
    patch with the key [id] is refused: the call raises and the store is
    as before. *)
Theorem update_keeps_ids (l : list Item.t) (item_id : string) (info : value) :
  (∃ l' : list Item.t,
     snd (ShoppingData.update item_id info (store_of l)) = store_of l'
     ∧ Item.id <$> l' = Item.id <$> l)
  ∧ (∀ (d : dict) (v : value),
       info = VDict d → d !! "id" = Some v →
       ∃ e : exn,
         ShoppingData.update item_id info (store_of l) = (inl e, store_of l)).
Proof.
  split.
  - rewrite update_patch_first.
    destruct (ITEM_UPDATE_SCHEMA info) as [e|d]; [by exists l|].
    exists (patch_first item_id d l). split; [done|].
    apply patch_first_ids.
  - intros d v -> Hid.
    assert (ITEM_UPDATE_SCHEMA (VDict d) = inl Invalid) as Hinv.
    { apply (schema_refuses d "id" v Hid). by left. }
    destruct (decide (item_id ∈ Item.id <$> l)) as [Hin|Hnot].
    + destruct (update_existing l item_id (VDict d) Hin)
        as (i & it & _ & _ & _ & ->).
      rewrite Hinv. by exists Invalid.
    + exists KeyError. by apply update_absent.
Qed.

Lemma update_keeps_ids_witness :
  ∃ e : exn,
    ShoppingData.update (hex (uuid4 1)) (VDict {[ "id" := VStr "mine" ]})
      (store_of [Item.created "eggs" 1])
    = (inl e, store_of [Item.created "eggs" 1]).
Proof.
  apply (update_keeps_ids [Item.created "eggs" 1] (hex (uuid4 1))
           (VDict {[ "id" := VStr "mine" ]}))
    with (d := {[ "id" := VStr "mine" ]}) (v := VStr "mine");
    reflexivity.
Defined.



(** X4. [update] is idempotent: on every store of items, for every id
    and every payload, repeating the call right away gives the same
    outcome (the same returned item, or the same exception) and the same
    store as the first call. *)
Theorem update_idempotent (l : list Item.t) (item_id : string) (info : value) :
  ShoppingData.update item_id info
    (snd (ShoppingData.update item_id info (store_of l)))
  = ShoppingData.update item_id info (store_of l).
Proof.
  destruct (decide (item_id ∈ Item.id <$> l)) as [Hin|Hnot].
  - destruct (first_with_id l item_id Hin)
      as (l1 & it & l2 & -> & <- & Hnot).
    rewrite (update_first l1 it l2 info Hnot).
    destruct (ITEM_UPDATE_SCHEMA info) as [e|d] eqn:Hs; simpl.
    + by rewrite update_first, Hs.
    + change (Item.id it) with (Item.id (Item.patched d it)).
      rewrite update_first by done. by rewrite Hs, patched_idem.
  - rewrite !update_absent by done. simpl. by rewrite update_absent.
Qed.

(** X5. Updates of items with different ids commute: on every store of
    items, the two orders of the calls leave the same store, whether the
    calls succeed or raise. *)
Theorem update_commute
    (l : list Item.t) (id1 id2 : string) (info1 info2 : value) :
  id1 ≠ id2 →
  snd (ShoppingData.update id2 info2
         (snd (ShoppingData.update id1 info1 (store_of l))))
  = snd (ShoppingData.update id1 info1
           (snd (ShoppingData.update id2 info2 (store_of l)))).
Proof.
  intros Hne. rewrite (update_patch_first l id1), (update_patch_first l id2).
  rewrite !update_patch_first.
  destruct (ITEM_UPDATE_SCHEMA info1) as [e1|d1];
    destruct (ITEM_UPDATE_SCHEMA info2) as [e2|d2]; try done.
  by rewrite patch_first_commute.
Qed.

Lemma update_commute_witness :
  snd (ShoppingData.update (hex (uuid4 2)) (VDict {[ "name" := VStr "rye" ]})
         (snd (ShoppingData.update (hex (uuid4 1))
                 (VDict {[ "complete" := VBool true ]})
                 (store_of [Item.created "eggs" 1; Item.created "bread" 2]))))
  = snd (ShoppingData.update (hex (uuid4 1))
           (VDict {[ "complete" := VBool true ]})
           (snd (ShoppingData.update (hex (uuid4 2))
                   (VDict {[ "name" := VStr "rye" ]})
                   (store_of [Item.created "eggs" 1;
                              Item.created "bread" 2])))).
Proof.
  apply (update_commute [Item.created "eggs" 1; Item.created "bread" 2]
           (hex (uuid4 1)) (hex (uuid4 2))).
  apply (bool_decide_unpack _). vm_compute. exact I.
Defined.

(** X6. Insert then look up: when the identifier drawn by [add] is not
    yet in the store, an [update] with that identifier and a valid patch
    right after the [add] succeeds and changes the item just added, the
    last of the list, and no other. *)
Theorem add_then_update
    (l : list Item.t) (name : string) (urandom : Z) (info : value)
    (d : dict) :
  hex (uuid4 urandom) ∉ Item.id <$> l →
  ITEM_UPDATE_SCHEMA info = inr d →
  ShoppingData.update (hex (uuid4 urandom)) info
    (snd (ShoppingData.add name urandom (store_of l)))
  = (inr (VDict (Item.to_dict (Item.patched d (Item.created name urandom)))),
     store_of (l ++ [Item.patched d (Item.created name urandom)])).
Proof.
  intros Hnew Hs. rewrite add_store_of. simpl.
  change (hex (uuid4 urandom)) with (Item.id (Item.created name urandom)).
  rewrite update_first by done. by rewrite Hs.
Qed.

Lemma add_then_update_witness :
  ShoppingData.update (hex (uuid4 2)) (VDict {[ "complete" := VBool true ]})
    (snd (ShoppingData.add "bread" 2 (store_of [Item.created "eggs" 1])))
  = (inr (VDict (Item.to_dict
            (Item.patched {[ "complete" := VBool true ]}
               (Item.created "bread" 2)))),
     store_of ([Item.created "eggs" 1]
               ++ [Item.patched {[ "complete" := VBool true ]}
                     (Item.created "bread" 2)])).
Proof.
  apply (add_then_update [Item.created "eggs" 1] "bread" 2).
  - apply (bool_decide_unpack _). vm_compute. exact I.
  - reflexivity.
Defined.

Lemma filter_patch_first_complete item_id (l : list Item.t) :
  NoDup (Item.id <$> l) →
  List.filter (fun it => negb (Item.complete it))
    (patch_first item_id {[ "complete" := VBool true ]} l)
  = List.filter
      (fun it => negb (Item.complete it)
                 && negb (String.eqb (Item.id it) item_id)) l.
Proof.
  induction l as [|it l IH]; [done|].
  rewrite fmap_cons, NoDup_cons. intros [Hnot Hnd]. simpl.
  destruct (String.eqb_spec (Item.id it) item_id) as [Heq|Hne]; simpl.
  - rewrite andb_false_r. apply List.filter_ext_in. intros it' Hin.
    destruct (String.eqb_spec (Item.id it') item_id) as [Heq'|_];
      [|by rewrite andb_true_r].
    destruct Hnot. rewrite Heq, <- Heq'. apply list_elem_of_fmap.
    exists it'. split; [done|]. by apply list_elem_of_In.
  - rewrite andb_true_r. rewrite IH by done.
    by destruct (Item.complete it).
Qed.

(** X7. Completing an item and then clearing removes it: on a store of
    items with pairwise distinct ids, after [update(id, {complete: true})]
    on an id of the store, [clear_completed] leaves exactly the items that
    were not complete and do not carry that id, in their order; the id is
    gone, and any later [update] with it raises [KeyError]. *)
Theorem complete_then_clear (l : list Item.t) (item_id : string) :
  NoDup (Item.id <$> l) →
  item_id ∈ Item.id <$> l →
  let kept :=
    List.filter (fun it => negb (Item.complete it)
                           && negb (String.eqb (Item.id it) item_id)) l in
  ShoppingData.clear_completed
    (snd (ShoppingData.update item_id
            (VDict {[ "complete" := VBool true ]}) (store_of l)))
  = (inr VNone, store_of kept)
  ∧ (item_id ∉ Item.id <$> kept)
  ∧ (∀ info : value,
       ShoppingData.update item_id info (store_of kept)
       = (inl KeyError, store_of kept)).
Proof.
  intros Hnd Hin kept.
  assert (item_id ∉ Item.id <$> kept) as Hgone.
  { intros Hk. apply list_elem_of_fmap in Hk as (it & -> & Hit).
    apply list_elem_of_In, filter_In in Hit as [_ Hit].
    apply andb_true_iff in Hit as [_ Hit].
    by rewrite String.eqb_refl in Hit. }
  split_and!; [|done|].
  - rewrite update_patch_first, schema_accepts
      by (by apply map_Forall_singleton).
    rewrite clear_completed_store_of.
    by rewrite filter_patch_first_complete.
  - intros info. by apply update_absent.
Qed.

Lemma complete_then_clear_witness :
  ShoppingData.clear_completed
    (snd (ShoppingData.update (hex (uuid4 1))
            (VDict {[ "complete" := VBool true ]})
            (store_of [Item.created "eggs" 1; Item.created "bread" 2])))
  = (inr VNone,
     store_of
       (List.filter
          (fun it => negb (Item.complete it)
                     && negb (String.eqb (Item.id it) (hex (uuid4 1))))
          [Item.created "eggs" 1; Item.created "bread" 2])).
Proof.
  assert (NoDup (Item.id <$> [Item.created "eggs" 1; Item.created "bread" 2]))
    as Hnd by (apply (bool_decide_unpack _); vm_compute; exact I).
  assert (hex (uuid4 1)
          ∈ Item.id <$> [Item.created "eggs" 1; Item.created "bread" 2])
    as Hin by (apply (bool_decide_unpack _); vm_compute; exact I).
  exact (proj1 (complete_then_clear _ _ Hnd Hin)).
Defined.

Lemma not_complete_ok (items : list dict) :
  Forall (fun itm : dict => is_Some (itm !! "complete")) items →
  ∃ kept, ShoppingData.not_complete items = inr kept
          ∧ kept `sublist_of` items.
Proof.
  induction items as [|itm items IH]; intros Hall.
  - exists []. by split.
  - apply Forall_cons in Hall as [[v Hv] Hall].
    destruct (IH Hall) as (kept & Hk & Hsub).
    simpl. unfold getitem. rewrite Hv. simpl. rewrite Hk. simpl.
    destruct (truthy v); simpl.
    + exists kept. split; [done|]. by constructor.
    + exists (itm :: kept). split; [done|]. by constructor.
Qed.

Lemma not_complete_raises (items : list dict) :
  ¬ Forall (fun itm : dict => is_Some (itm !! "complete")) items →
  ShoppingData.not_complete items = inl KeyError.
Proof.
  induction items as [|itm items IH]; intros Hnot.
  - destruct Hnot. constructor.
  - simpl. unfold getitem.
    destruct (itm !! "complete") as [v|] eqn:Hv; [|done]. simpl.
    rewrite IH; [done|]. intros Hall. apply Hnot.
    constructor; [by rewrite Hv|done].
Qed.

(** X8. [clear_completed] on a store of any dictionaries: when every item
    has the key [complete], the call succeeds and what it keeps is a
    sublist of the items; when some item lacks the key, the call raises
    [KeyError] and the store is as before, no item removed. *)
Theorem clear_completed_any_store (s : ShoppingData.t) :
  (Forall (fun itm : dict => is_Some (itm !! "complete"))
     (ShoppingData.items s) →
   ∃ kept : list dict,
     ShoppingData.clear_completed s = (inr VNone, ShoppingData.__init__ kept)
     ∧ kept `sublist_of` ShoppingData.items s)
  ∧ (¬ Forall (fun itm : dict => is_Some (itm !! "complete"))
         (ShoppingData.items s) →
     ShoppingData.clear_completed s = (inl KeyError, s)).
Proof.
  split; intros H; unfold ShoppingData.clear_completed; py_run.
  - destruct (not_complete_ok _ H) as (kept & -> & Hsub). by exists kept.
  - by rewrite not_complete_raises.
Qed.

Lemma clear_completed_any_store_witness :
  ShoppingData.clear_completed
    (ShoppingData.__init__
       [Item.to_dict (Item.created "eggs" 1); {[ "name" := VStr "bread" ]}])
  = (inl KeyError,
     ShoppingData.__init__
       [Item.to_dict (Item.created "eggs" 1); {[ "name" := VStr "bread" ]}]).
Proof.
  apply (clear_completed_any_store
           (ShoppingData.__init__
              [Item.to_dict (Item.created "eggs" 1);
               {[ "name" := VStr "bread" ]}])).
  intros H. apply Forall_cons in H as [_ H].
  apply Forall_cons in H as [[v Hv] _]. discriminate Hv.
Defined.



(** ** The views and the intents *)



(** X11. The POST view never raises: whatever dictionaries the store
    holds, whatever the id and the decoded body, it returns a response.
    Either the status is 200 and one event was added to the bus, or the
    status is 404 or 400, the body is the message "Item not found", and
    the store and the bus are exactly as before. *)
Theorem post_never_raises (hass : Hass) (item_id : string) (info : value) :
  ∃ (resp : Response) (hass' : Hass),
    UpdateShoppingListItemView.post info item_id hass = (inr resp, hass')
    ∧ ((status resp = 200%Z
        ∧ bus hass' = bus hass ++ ["shopping_list_updated"])
       ∨ ((status resp = 404%Z ∨ status resp = 400%Z)
          ∧ body resp = VDict {[ "message" := VStr "Item not found" ]}
          ∧ hass' = hass)).
Proof.
  destruct hass as [s events].
  unfold UpdateShoppingListItemView.post, on_data, async_fire. py_run.
  destruct (update_cases s item_id info)
    as [->|[->|(pos & item & d & _ & _ & _ & _ & ->)]]; simpl.
  - eexists _, _. split; [done|]. right. split_and!; [by left|done|done].
  - eexists _, _. split; [done|]. right. split_and!; [by right|done|done].
  - eexists _, _. split; [done|]. by left.
Qed.

(** X12. The two read paths never write: on a store of any dictionaries,
    the list view returns a response with status 200 and leaves the store
    and the bus as they were, and so does the top-items intent, also when
    it raises. *)
Theorem reads_never_modify (hass : Hass) :
  (∃ resp : Response,
     ShoppingListView.get hass = (inr resp, hass) ∧ status resp = 200%Z)
  ∧ snd (ListTopItemsIntent.async_handle hass) = hass.
Proof.
  split.
  - eexists. split; reflexivity.
  - unfold ListTopItemsIntent.async_handle. py_run.
    destruct (last_slice 5 (ShoppingData.items (data hass))) as [|d ds];
      [done|].
    destruct (Exc.traverse (fun itm => getitem itm "name") (rev (d :: ds)))
      as [e|names]; [done|].
    by destruct (str_join ", " names).
Qed.

Lemma top_items_store_of (l : list Item.t) (events : list string) :
  l ≠ [] →
  ListTopItemsIntent.async_handle {| data := store_of l; bus := events |}
  = (inr {| speech :=
         "These are the top " ++ pretty (length (last_slice 5 l)) ++
         " items on your shopping list: " ++
         String.concat ", " (Item.name <$> rev (last_slice 5 l)) |},
     {| data := store_of l; bus := events |}).
Proof.
  intros Hne. unfold ListTopItemsIntent.async_handle. py_run.
  rewrite last_slice_fmap.
  destruct (last_slice 5 l) as [|it top] eqn:Htop.
  { apply (f_equal length) in Htop. rewrite last_slice_length in Htop.
    destruct l; [done|]. simpl in Htop. lia. }
  rewrite <- Htop.
  destruct (Item.to_dict <$> last_slice 5 l) as [|d ds] eqn:Hd.
  { rewrite Htop in Hd. done. }
  rewrite <- Hd. rewrite <- fmap_rev, traverse_names. simpl.
  rewrite str_join_names. simpl. rewrite length_fmap.
  assert (length (last_slice 5 l) `min` 5 = length (last_slice 5 l))%nat
    as ->; [|done].
  rewrite last_slice_length. lia.
Qed.

Lemma last_slice_snoc {A} (n : nat) (l : list A) (x : A) :
  last_slice (S n) (l ++ [x]) = last_slice n l ++ [x].
Proof.
  unfold last_slice. rewrite length_app. simpl.
  replace (length l + 1 - S n)%nat with (length l - n)%nat by lia.
  apply drop_app_le. lia.
Qed.

(** X13. The add intent and then the top-items intent: for every store of
    items and every string [item], the add intent appends the new item,
    says so, and adds one event to the bus; the top-items intent run next
    names [item] first, followed by the names of up to four items that
    were the most recent before, newest first, and leaves everything as
    it found it. *)
Theorem add_intent_then_top_items
    (l : list Item.t) (events : list string) (item : string) (urandom : Z) :
  let hass' := {| data := store_of (l ++ [Item.created item urandom]);
                  bus := events ++ ["shopping_list_updated"] |} in
  AddItemIntent.async_handle item urandom
    {| data := store_of l; bus := events |}
  = (inr {| speech := "I've added " ++ item ++ " to your shopping list" |},
     hass')
  ∧ ListTopItemsIntent.async_handle hass'
    = (inr {| speech :=
           "These are the top " ++ pretty (S (length l `min` 4)) ++
           " items on your shopping list: " ++
           String.concat ", "
             (item :: rev (Item.name <$> last_slice 4 l)) |},
       hass').
Proof.
  intros hass'. split.
  - unfold hass', AddItemIntent.async_handle, on_data, async_fire,
      ShoppingData.add, store_of, ShoppingData.__init__. py_run.
    by rewrite fmap_app.
  - unfold hass'. rewrite top_items_store_of by (by destruct l).
    rewrite last_slice_snoc, rev_unit, length_app, last_slice_length.
    rewrite fmap_cons, fmap_rev. simpl.
    by replace (length l `min` 4 + 1)%nat with (S (length l `min` 4)) by lia.
Qed.

Lemma sublist_Forall {A} (P : A → Prop) (l1 l2 : list A) :
  l1 `sublist_of` l2 → Forall P l2 → Forall P l1.
Proof.
  induction 1 as [|x l1 l2 _ IH|x l1 l2 _ IH]; intros Hall; [done| |].
  - apply Forall_cons in Hall as [Hx Hall]. constructor; auto.
  - apply Forall_cons in Hall as [_ Hall]. auto.
Qed.

(** X14. In every store reached from the empty one, by whatever calls,
    every item has an id of exactly thirty-two characters, hence not the
    empty string, and the store holds at most as many items as there were
    [add] calls. *)
Theorem reachable_ids_well_formed (ops : list op) :
  ∃ l : list Item.t,
    exec ops (ShoppingData.__init__ []) = store_of l
    ∧ Forall (fun it => String.length (Item.id it) = 32%nat
                        ∧ Item.id it ≠ "") l
    ∧ (length l ≤ length (drawn ops))%nat.
Proof.
  destruct (exec_store_of ops []) as (l & Hexec & Hsub). simpl in Hsub.
  exists l. split_and!; [done| |].
  - assert (Forall (fun i => String.length i = 32%nat ∧ i ≠ "")
              (Item.id <$> l)) as Hids.
    { eapply sublist_Forall; [exact Hsub|].
      apply Forall_fmap, Forall_forall. intros u _. simpl.
      assert (String.length (hex u) = 32%nat) as Hlen
        by apply hexdigits_length.
      split; [done|]. intros Hempty. by rewrite Hempty in Hlen. }
    by apply Forall_fmap in Hids.
  - apply sublist_length in Hsub. by rewrite !length_fmap in Hsub.
Qed.
